(** * A shallow embedding of [scripts/tes4_pack.py]

    The script enumerates the power set of the archive flags, and for each
    format and flag combination runs the external archiver [bsarch] with
    [subprocess.run(..., check=True)].  Python integers are modelled as [Z],
    Python strings as [String.string], the lazy iterator returned by
    [powerset] as the list of elements it still has to yield, and the
    process-level effects (working directory, directories on disk,
    subprocess invocations) by explicit state passing in a small
    state-and-exception monad. *)

From Stdlib Require Import ZArith List Lia Bool String Ascii.
From Stdlib Require Import Sorting.Permutation Sorting.Sorted.
Import ListNotations.
Open Scope Z_scope.

(** ** [class Flags(enum.IntFlag)] *)

Inductive Flags := directory_strings | file_strings | compressed | embedded_file_names.

Definition Flags_value (f : Flags) : Z :=
  match f with
  | directory_strings => Z.shiftl 1 0
  | file_strings => Z.shiftl 1 1
  | compressed => Z.shiftl 1 2
  | embedded_file_names => Z.shiftl 1 8
  end.

(** Iteration over the enum yields its members in definition order. *)
Definition Flags_members : list Flags :=
  [directory_strings; file_strings; compressed; embedded_file_names].

(** ** [itertools.combinations] and [powerset] *)

(** [itertools.combinations(s, r)]: the [r]-element sub-sequences of [s],
    in lexicographic order of positions. *)
Fixpoint combinations {A} (s : list A) (r : nat) : list (list A) :=
  match r with
  | O => [[]]
  | S r' =>
      match s with
      | [] => []
      | x :: xs => map (cons x) (combinations xs r') ++ combinations xs r
      end
  end.

(** [powerset(a_iterable)]: the elements yielded by
    [chain.from_iterable(combinations(s, r) for r in range(len(s)+1))]. *)
Definition powerset {A} (a_iterable : list A) : list (list A) :=
  let s := a_iterable in
  flat_map (combinations s) (seq 0 (List.length s + 1))%nat.

(** [[flag.value for flag in Flags]] *)
Definition flag_values : list Z := map Flags_value Flags_members.

Definition formats : list string := ["tes4"; "tes5"; "sse"]%string.

(** ** [itertools.accumulate(combo, f, initial=0)] and [[-1]] *)

Fixpoint accumulate (f : Z -> Z -> Z) (total : Z) (l : list Z) : list Z :=
  total :: match l with
           | [] => []
           | x :: xs => accumulate f (f total x) xs
           end.

(** Python's [l[-1]]: [None] stands for [IndexError]. *)
Definition py_last (l : list Z) : option Z :=
  match rev l with
  | [] => None
  | x :: _ => Some x
  end.

(** [lambda sum, elem: sum | elem] *)
Definition or_step (sum elem : Z) : Z := Z.lor sum elem.

(** [list(itertools.accumulate(combo, ..., initial=0))[-1]] *)
Definition accumulate_af (combo : list Z) : option Z :=
  py_last (accumulate or_step 0 combo).

(** ** ["{:X}".format(n)] *)

Definition hex_alphabet : string := "0123456789ABCDEF".

Definition hex_digit (d : Z) : ascii :=
  match String.get (Z.to_nat d) hex_alphabet with
  | Some c => c
  | None => "?"%char
  end.

(** Digits of [n], least significant first, prepended to [acc]. *)
Fixpoint hex_digits (fuel : nat) (n : Z) (acc : string) : string :=
  match fuel with
  | O => acc
  | S fuel' =>
      if n =? 0 then acc
      else hex_digits fuel' (n / 16) (String (hex_digit (n mod 16)) acc)
  end.

Definition hex_fuel (n : Z) : nat := S (Z.to_nat (Z.log2 n)).

(** Uppercase hexadecimal, no padding, a leading minus for negatives. *)
Definition format_X (n : Z) : string :=
  if n =? 0 then "0"
  else if n <? 0 then String "-" (hex_digits (hex_fuel (- n)) (- n) "")
  else hex_digits (hex_fuel n) n "".

(** ["{}_{:X}.bsa".format(format, af)] *)
Definition archive_name (format : string) (af : Z) : string :=
  (format ++ "_" ++ format_X af ++ ".bsa")%string.

(** ["-{}".format(format)] *)
Definition format_option (format : string) : string := ("-" ++ format)%string.

(** ["-af:0x{:X}".format(af)] *)
Definition af_option (af : Z) : string := ("-af:0x" ++ format_X af)%string.

(** ** Process state: working directory, file system, subprocess log *)

(** A path is the list of its components below the root; [[]] is the root. *)
Definition abspath := list string.

Inductive path := Abs (p : abspath) | Rel (p : list string).

Definition resolve (cwd : abspath) (p : path) : abspath :=
  match p with Abs q => q | Rel q => cwd ++ q end.

Inductive exc :=
  | OSError                       (* subprocess could not start the program *)
  | CalledProcessError (returncode : Z)
  | FileExistsError
  | FileNotFoundError
  | NotADirectoryError
  | IndexError.

(** What the external archiver does when started: it is not an executable,
    or it runs and exits with a status code. *)
Inductive proc_result := NotExecutable | Exited (returncode : Z).

Inductive event :=
  | Ev_chdir (p : abspath)
  | Ev_mkdir (p : abspath)
  | Ev_run (cwd : abspath) (argv : list string).

Record os_state := mk_os {
  cwd : abspath;
  dirs : list abspath;
  files : list abspath;
  trace : list event
}.

Definition initial_state (cwd0 : abspath) (dirs0 files0 : list abspath) : os_state :=
  mk_os cwd0 dirs0 files0 [].

Inductive res (A : Type) := Ok (a : A) | Err (e : exc).
Arguments Ok {A} a.
Arguments Err {A} e.

(** The state-and-exception monad of the script. *)
Definition M (A : Type) := os_state -> res A * os_state.

Definition ret {A} (a : A) : M A := fun st => (Ok a, st).
Definition raise {A} (e : exc) : M A := fun st => (Err e, st).
Definition bind {A B} (m : M A) (k : A -> M B) : M B :=
  fun st => match m st with
            | (Ok a, st') => k a st'
            | (Err e, st') => (Err e, st')
            end.

Notation "x <- m ;; k" := (bind m (fun x => k)) (at level 61, m at next level, right associativity).
Notation "m ;; k" := (bind m (fun _ => k)) (at level 61, right associativity).

Definition get : M os_state := fun st => (Ok st, st).
Definition put (st : os_state) : M unit := fun _ => (Ok tt, st).

Definition log (e : event) : M unit :=
  fun st => (Ok tt, mk_os (cwd st) (dirs st) (files st) (trace st ++ [e])).

Definition path_eq_dec := list_eq_dec string_dec.

Definition isdir (st : os_state) (q : abspath) : bool :=
  match q with
  | [] => true
  | _ => if in_dec path_eq_dec q (dirs st) then true else false
  end.

Definition isfile (st : os_state) (q : abspath) : bool :=
  if in_dec path_eq_dec q (files st) then true else false.

Definition exists_path (st : os_state) (q : abspath) : bool := isdir st q || isfile st q.

(** [os.chdir(p)] *)
Definition os_chdir (p : path) : M unit :=
  st <- get ;;
  let q := resolve (cwd st) p in
  if isdir st q then
    put (mk_os q (dirs st) (files st) (trace st)) ;; log (Ev_chdir q)
  else if isfile st q then raise NotADirectoryError
  else raise FileNotFoundError.

(** [os.mkdir(q)] *)
Definition os_mkdir (q : abspath) : M unit :=
  st <- get ;;
  if exists_path st q then raise FileExistsError
  else if isdir st (removelast q) then
    put (mk_os (cwd st) (dirs st ++ [q]) (files st) (trace st)) ;; log (Ev_mkdir q)
  else if isfile st (removelast q) then raise NotADirectoryError
  else raise FileNotFoundError.

(** [try: m except FileExistsError: pass] *)
Definition except_FileExistsError (m : M unit) : M unit :=
  fun st => match m st with
            | (Err FileExistsError, st') => (Ok tt, st')
            | r => r
            end.

(** [try: mkdir(q) except OSError: if not exist_ok or not path.isdir(q): raise] *)
Definition mkdir_exist_ok (exist_ok : bool) (q : abspath) : M unit :=
  fun st => match os_mkdir q st with
            | (Err e, st') =>
                if exist_ok && isdir st' q then (Ok tt, st') else (Err e, st')
            | r => r
            end.

(** [os.makedirs(name, exist_ok)] on the resolved path: missing ancestors
    first, then [mkdir(name)]. *)
Fixpoint makedirs_abs (fuel : nat) (exist_ok : bool) (q : abspath) : M unit :=
  match fuel with
  | O => mkdir_exist_ok exist_ok q
  | S fuel' =>
      st <- get ;;
      let head := removelast q in
      (if match head with [] => false | _ => negb (exists_path st head) end
       then except_FileExistsError (makedirs_abs fuel' exist_ok head)
       else ret tt) ;;
      mkdir_exist_ok exist_ok q
  end.

Definition os_makedirs (p : path) (exist_ok : bool) : M unit :=
  st <- get ;;
  let q := resolve (cwd st) p in
  makedirs_abs (List.length q) exist_ok q.

(** [IndexError] when [l[-1]] has nothing to index. *)
Definition index_value (o : option Z) : M Z :=
  match o with Some v => ret v | None => raise IndexError end.

(** [argparse.Namespace] with the two positional arguments. *)
Record Namespace := mk_args { bsarch : string; directory : string }.

Section Script.

(** The external programs on this machine: what starting [argv] in the
    working directory [cwd] does. *)
Variable proc : abspath -> list string -> proc_result.

(** [subprocess.run(argv, check=True)] *)
Definition subprocess_run (argv : list string) : M unit :=
  st <- get ;;
  log (Ev_run (cwd st) argv) ;;
  match proc (cwd st) argv with
  | NotExecutable => raise OSError
  | Exited 0 => ret tt
  | Exited c => raise (CalledProcessError c)
  end.

(** The argument list built at lines 21-28. *)
Definition combo_argv (a_args : Namespace) (format : string) (af : Z) : list string :=
  [ bsarch a_args;
    "pack";
    directory a_args;
    archive_name format af;
    format_option format;
    af_option af ]%string.

(** [for combo in combinations: ...]: pulls the elements still left in the
    iterator [combinations]; once the loop ends the iterator is exhausted. *)
Fixpoint combinate_inner (a_args : Namespace) (format : string)
    (combinations : list (list Z)) : M (list (list Z)) :=
  match combinations with
  | [] => ret []
  | combo :: rest =>
      af <- index_value (accumulate_af combo) ;;
      subprocess_run (combo_argv a_args format af) ;;
      combinate_inner a_args format rest
  end.

(** [for format in formats: ...], all iterations sharing the one iterator. *)
Fixpoint combinate_outer (a_args : Namespace) (fmts : list string)
    (combinations : list (list Z)) : M unit :=
  match fmts with
  | [] => ret tt
  | format :: fmts' =>
      combinations' <- combinate_inner a_args format combinations ;;
      combinate_outer a_args fmts' combinations'
  end.

Definition combinate (a_args : Namespace) : M unit :=
  let combinations := powerset flag_values in
  combinate_outer a_args formats combinations.

(** [main()] after argument parsing; [script_dir] is
    [os.path.dirname(os.path.realpath(__file__))]. *)
Definition main (script_dir : abspath) (args : Namespace) : M unit :=
  os_chdir (Abs script_dir) ;;
  let out := "bin"%string in
  os_makedirs (Rel [out]) true ;;
  os_chdir (Rel [out]) ;;
  combinate args.

(** An uncaught exception ends the interpreter with status 1. *)
Definition exit_status (r : res unit) : Z :=
  match r with Ok _ => 0 | Err _ => 1 end.

Definition run_script (script_dir : abspath) (args : Namespace)
    (cwd0 : abspath) (dirs0 files0 : list abspath) : Z * os_state :=
  let (r, st) := main script_dir args (initial_state cwd0 dirs0 files0) in
  (exit_status r, st).

End Script.

(** ** Specification-side definitions *)

Definition always_ok : abspath -> list string -> proc_result := fun _ _ => Exited 0.

Definition demo_args := mk_args "bsarch.exe" "data".

Definition hex_char_value (c : ascii) : Z :=
  match String.index 0 (String c EmptyString) hex_alphabet with
  | Some i => Z.of_nat i
  | None => -1
  end.

Fixpoint hex_value (s : string) : Z :=
  match s with
  | EmptyString => 0
  | String c s' => hex_char_value c * 16 ^ Z.of_nat (String.length s') + hex_value s'
  end.

Definition not_run (e : event) : Prop :=
  match e with Ev_run _ _ => False | _ => True end.

(** The archiver exited with status 0. *)
Definition run_ok (p : proc_result) : bool :=
  match p with Exited 0 => true | _ => false end.

(** A computation that appends no subprocess invocation to the log. *)
Definition NR_at {A} (m : M A) (st : os_state) : Prop :=
  exists new, trace (snd (m st)) = trace st ++ new /\ Forall not_run new.

Definition NR {A} (m : M A) : Prop := forall st, NR_at m st.

(** The invocations [combinate] can make: one format of [formats] and one
    combination of the power set. *)
Definition job_of (a_args : Namespace) (v : list string) : Prop :=
  exists format combo,
    In format formats /\ In combo (powerset flag_values)
    /\ v = combo_argv a_args format (fold_left or_step combo 0).

Section LoopDefs.

Variable proc : abspath -> list string -> proc_result.

Definition failing (e : event) : Prop :=
  match e with Ev_run c v => run_ok (proc c v) = false | _ => False end.

Definition no_failure (l : list event) : Prop := Forall (fun e => ~ failing e) l.

(** Fail-fast shape of a log segment: no failing invocation when the
    computation returned, at most one, as the last event, when it raised. *)
Definition fail_fast {A} (new : list event) (r : res A) : Prop :=
  match r with
  | Ok _ => no_failure new
  | Err _ => no_failure new
             \/ exists pre e, new = pre ++ [e] /\ no_failure pre /\ failing e
  end.

(** A computation that keeps the working directory and the file system,
    and only appends subprocess invocations [v] with [Q v], started in the
    working directory, in fail-fast shape; [Post] holds of its result. *)
Definition RUNS {A} (Q : list string -> Prop) (Post : A -> Prop) (m : M A) : Prop :=
  forall st,
    let '(r, st') := m st in
    cwd st' = cwd st /\ dirs st' = dirs st /\ files st' = files st
    /\ (forall a, r = Ok a -> Post a)
    /\ exists new, trace st' = trace st ++ new
                   /\ Forall (fun e => exists v, e = Ev_run (cwd st) v /\ Q v) new
                   /\ fail_fast new r.

(** A log segment made of a startup part without invocations, followed by
    invocations [v] with [Q v] all started in one directory [c]. *)
Definition SHAPE {A} (Q : list string -> Prop) (m : M A) : Prop :=
  forall st,
    let '(r, st') := m st in
    exists S N c, trace st' = trace st ++ S ++ N /\ Forall not_run S
      /\ Forall (fun e => exists v, e = Ev_run c v /\ Q v) N
      /\ fail_fast (S ++ N) r.

End LoopDefs.

Fixpoint count_runs (l : list event) : nat :=
  match l with
  | [] => O
  | Ev_run _ _ :: l' => S (count_runs l')
  | _ :: l' => count_runs l'
  end.

Definition bin_dirs (binp : abspath) (dirs0 : list abspath) : list abspath :=
  if in_dec path_eq_dec binp dirs0 then dirs0 else dirs0 ++ [binp].

Definition bin_mkdir_events (binp : abspath) (dirs0 : list abspath) : list event :=
  if in_dec path_eq_dec binp dirs0 then [] else [Ev_mkdir binp].

(** The output name has no directory part: it is created in the working
    directory of the invocation. *)
Definition plain_name (s : string) : Prop := ~ In "/"%char (list_ascii_of_string s).

Definition tes4_job (a_args : Namespace) (v : list string) : Prop :=
  exists combo, In combo (powerset flag_values)
                /\ v = combo_argv a_args "tes4" (fold_left or_step combo 0).

Definition demo_sd : abspath := ["home"; "scripts"]%string.

Definition demo_dirs : list abspath := [["home"]; ["home"; "scripts"]]%string.

Definition demo_bin : abspath := ["home"; "scripts"; "bin"]%string.

Definition run_format (e : event) : option string :=
  match e with Ev_run _ v => Some (nth 4 v ""%string) | _ => None end.

(** An archiver that exits with status 2 when asked for flags 0x4. *)
Definition fail_on_af4 : abspath -> list string -> proc_result :=
  fun _ v => if String.eqb (nth 5 v ""%string) "-af:0x4" then Exited 2 else Exited 0.

(** [l] is obtained from [s] by deleting some elements, keeping the order. *)
Inductive subseq {A} : list A -> list A -> Prop :=
  | subseq_nil : subseq [] []
  | subseq_skip x l s : subseq l s -> subseq l (x :: s)
  | subseq_take x l s : subseq l s -> subseq (x :: l) (x :: s).

(** The argument lists [combinate] builds for [tes4], one per combination,
    in the order the power set yields them. *)
Definition plan (a_args : Namespace) : list (list string) :=
  map (fun combo => combo_argv a_args "tes4" (fold_left or_step combo 0)) (powerset flag_values).

(** The exception [subprocess.run(..., check=True)] raises for an outcome. *)
Definition exc_of_result (p : proc_result) : exc :=
  match p with NotExecutable => OSError | Exited c => CalledProcessError c end.

(** [m] appends some events that start no process, then starts a prefix of
    [plan] in one directory. *)
Definition plan_prefix_runs (a_args : Namespace) {A} (m : M A) : Prop :=
  forall st, exists new pre post c, plan a_args = pre ++ post /\ Forall not_run new
    /\ trace (snd (m st)) = trace st ++ new ++ map (Ev_run c) pre.

(** The output names of the invocations of a log. *)
Definition run_outputs (l : list event) : list string :=
  flat_map (fun e => match e with Ev_run _ v => [nth 3 v ""%string] | _ => [] end) l.

Definition startup_events (sd : abspath) (dirs0 : list abspath) : list event :=
  [Ev_chdir sd] ++ bin_mkdir_events (sd ++ ["bin"%string]) dirs0 ++ [Ev_chdir (sd ++ ["bin"%string])].

Example archive_name_tes5 : archive_name "tes5" 263 = "tes5_107.bsa"%string.
Proof. reflexivity. Qed.
Example af_option_263 : af_option 263 = "-af:0x107"%string.
Proof. reflexivity. Qed.
Example powerset_len : List.length (powerset flag_values) = 16%nat.
Proof. reflexivity. Qed.

Example demo_run :
  let '(code, st) := run_script always_ok ["home"; "scripts"]%string demo_args [] [["home"]; ["home"; "scripts"]]%string [] in
  (code, List.length (trace st)) = (0, 19%nat).
Proof. vm_compute. reflexivity. Qed.

(** ** The accumulation of a combination *)

Lemma accumulate_last_fold f l total :
  exists pre, accumulate f total l = pre ++ [fold_left f l total].
Proof.
  revert total; induction l as [|x xs IH]; intros total.
  - exists []. reflexivity.
  - destruct (IH (f total x)) as [pre Hpre].
    exists (total :: pre). simpl. rewrite Hpre. reflexivity.
Qed.

Lemma py_last_snoc pre v : py_last (pre ++ [v]) = Some v.
Proof. unfold py_last. rewrite rev_app_distr. reflexivity. Qed.

Lemma accumulate_af_fold combo :
  accumulate_af combo = Some (fold_left or_step combo 0).
Proof.
  unfold accumulate_af.
  destruct (accumulate_last_fold or_step combo 0) as [pre ->].
  apply py_last_snoc.
Qed.

(** Bit [n] of the fold is set exactly when bit [n] of the start value or
    of some element is set. *)
Lemma fold_or_testbit l total n :
  Z.testbit (fold_left or_step l total) n
  = Z.testbit total n || existsb (fun x => Z.testbit x n) l.
Proof.
  revert total; induction l as [|x xs IH]; intros total; simpl.
  - now rewrite orb_false_r.
  - rewrite IH. unfold or_step. rewrite Z.lor_spec. now rewrite orb_assoc.
Qed.

Lemma existsb_perm {A} (p : A -> bool) l l' :
  Permutation l l' -> existsb p l = existsb p l'.
Proof.
  induction 1; simpl; try congruence.
  - now rewrite !orb_assoc, (orb_comm (p y)).
Qed.

(** C9: the list built by [itertools.accumulate(combo, ..., initial=0)]
    always has a last element, so [[-1]] never raises [IndexError]; for
    the empty combination the value is 0. *)
Theorem C9_accumulate_index_never_fails :
  (forall combo st,
      exists pre, accumulate or_step 0 combo = pre ++ [fold_left or_step combo 0]
      /\ index_value (accumulate_af combo) st = (Ok (fold_left or_step combo 0), st))
  /\ accumulate_af [] = Some 0.
Proof.
  split; [|reflexivity].
  intros combo st.
  destruct (accumulate_last_fold or_step combo 0) as [pre Hpre].
  exists pre. split; [exact Hpre|].
  now rewrite accumulate_af_fold.
Qed.

(** C3: for every combination, the value accumulated by OR from 0 is the
    bitwise OR of its elements (bit [n] set iff bit [n] of some element is
    set), and reordering the combination does not change it. *)
Theorem C3_accumulate_is_or_of_subset :
  forall combo,
    (exists af, accumulate_af combo = Some af
                /\ forall n, Z.testbit af n = existsb (fun x => Z.testbit x n) combo)
    /\ (forall combo', Permutation combo combo' -> accumulate_af combo' = accumulate_af combo).
Proof.
  intros combo. split.
  - exists (fold_left or_step combo 0). split; [apply accumulate_af_fold|].
    intros n. rewrite fold_or_testbit. now rewrite Z.testbit_0_l.
  - intros combo' Hp. rewrite !accumulate_af_fold. f_equal.
    apply Z.bits_inj. intros n.
    rewrite !fold_or_testbit. f_equal. symmetry. now apply existsb_perm.
Qed.

Lemma C3_accumulate_is_or_of_subset_witness :
  accumulate_af [4; 256; 1] = Some 261
  /\ accumulate_af [1; 4; 256] = accumulate_af [4; 256; 1].
Proof.
  split; [reflexivity|].
  apply (proj2 (C3_accumulate_is_or_of_subset [4; 256; 1]) [1; 4; 256]).
  apply Permutation_sym, perm_trans with (l' := [4; 1; 256]).
  - apply perm_swap.
  - apply perm_skip, perm_swap.
Defined.

(** C2: the power set of the four flag values has 16 elements, pairwise
    distinct (even their accumulated values are), each a sub-list of the
    flags, among them the empty combination (value 0) and the full one
    (value 0x107). *)
Theorem C2_powerset_sixteen_distinct :
  List.length (powerset flag_values) = 16%nat
  /\ NoDup (powerset flag_values)
  /\ NoDup (map (fun c => fold_left or_step c 0) (powerset flag_values))
  /\ Forall (fun c => incl c flag_values) (powerset flag_values)
  /\ In [] (powerset flag_values) /\ accumulate_af [] = Some 0
  /\ In flag_values (powerset flag_values) /\ accumulate_af flag_values = Some 263.
Proof.
  assert (Hd : NoDup (map (fun c => fold_left or_step c 0) (powerset flag_values))).
  { vm_compute.
    repeat (constructor; [simpl; intros H; repeat destruct H as [H|H]; try discriminate; contradiction|]).
    constructor. }
  split; [reflexivity|]. split; [exact (NoDup_map_inv _ _ Hd)|]. split; [exact Hd|].
  split.
  - apply Forall_forall. intros c Hc. vm_compute in Hc.
    repeat destruct Hc as [Hc|Hc]; subst; try contradiction;
      intros x Hx; vm_compute; vm_compute in Hx; tauto.
  - vm_compute. repeat split; tauto.
Qed.

(** ** Reading back the hexadecimal rendering *)

Lemma hex_digit_cases d :
  0 <= d < 16 ->
  hex_char_value (hex_digit d) = d
  /\ In (hex_digit d) (list_ascii_of_string hex_alphabet).
Proof.
  intros Hd.
  assert (d = 0 \/ d = 1 \/ d = 2 \/ d = 3 \/ d = 4 \/ d = 5 \/ d = 6 \/ d = 7 \/
          d = 8 \/ d = 9 \/ d = 10 \/ d = 11 \/ d = 12 \/ d = 13 \/ d = 14 \/ d = 15)
    as Hc by lia.
  repeat destruct Hc as [Hc|Hc]; subst; vm_compute; intuition.
Qed.

Lemma hex_digits_zero fuel acc : hex_digits fuel 0 acc = acc.
Proof. destruct fuel; reflexivity. Qed.

Lemma hex_digits_value fuel n acc :
  0 <= n < 16 ^ Z.of_nat fuel ->
  hex_value (hex_digits fuel n acc)
  = n * 16 ^ Z.of_nat (String.length acc) + hex_value acc.
Proof.
  revert n acc; induction fuel as [|fuel IH]; intros n acc Hn.
  - simpl in Hn. assert (n = 0) by lia. subst. reflexivity.
  - simpl. destruct (Z.eqb_spec n 0) as [->|Hn0]; [reflexivity|].
    rewrite Nat2Z.inj_succ, Z.pow_succ_r in Hn by lia.
    rewrite IH.
    + cbn [hex_value String.length]. rewrite (proj1 (hex_digit_cases (n mod 16) ltac:(apply Z.mod_pos_bound; lia))).
      rewrite Nat2Z.inj_succ, Z.pow_succ_r by lia.
      rewrite (Z.div_mod n 16) at 3 by lia. ring.
    + split; [apply Z.div_pos; lia|]. apply Z.div_lt_upper_bound; lia.
Qed.

Lemma hex_digits_chars fuel n acc c :
  In c (list_ascii_of_string (hex_digits fuel n acc)) ->
  In c (list_ascii_of_string acc) \/ In c (list_ascii_of_string hex_alphabet).
Proof.
  revert n acc; induction fuel as [|fuel IH]; intros n acc H; simpl in H; [now left|].
  destruct (n =? 0); [now left|].
  destruct (IH _ _ H) as [[Hc|Hc]|Hc]; auto.
  right. subst c. apply hex_digit_cases, Z.mod_pos_bound. lia.
Qed.

Lemma hex_digits_head fuel n acc :
  0 < n < 16 ^ Z.of_nat fuel ->
  exists c rest, hex_digits fuel n acc = String c rest /\ c <> "0"%char.
Proof.
  revert n acc; induction fuel as [|fuel IH]; intros n acc Hn.
  - simpl in Hn. lia.
  - simpl. destruct (Z.eqb_spec n 0) as [Hn0|Hn0]; [lia|].
    rewrite Nat2Z.inj_succ, Z.pow_succ_r in Hn by lia.
    destruct (Z.eqb_spec (n / 16) 0) as [Hq|Hq].
    + rewrite Hq, hex_digits_zero. do 2 eexists. split; [reflexivity|].
      intros Heq.
      assert (Hv := proj1 (hex_digit_cases (n mod 16) ltac:(apply Z.mod_pos_bound; lia))).
      rewrite Heq in Hv. change (hex_char_value "0"%char) with 0 in Hv.
      pose proof (Z.div_mod n 16 ltac:(lia)) as Hdm. rewrite Hq in Hdm. lia.
    + apply IH. split.
      * assert (0 <= n / 16) by (apply Z.div_pos; lia). lia.
      * apply Z.div_lt_upper_bound; lia.
Qed.

Lemma hex_fuel_bound n : 0 < n -> n < 16 ^ Z.of_nat (hex_fuel n).
Proof.
  intros Hn. unfold hex_fuel.
  rewrite Nat2Z.inj_succ, Z2Nat.id by (apply Z.log2_nonneg).
  destruct (Z.log2_spec n Hn) as [_ Hlt].
  eapply Z.lt_le_trans; [exact Hlt|].
  apply Z.pow_le_mono_l. lia.
Qed.

(** C4: the output name is [{format}_{af:X}.bsa]: the flag value is
    written in upper-case hexadecimal digits that read back as [af], with
    no leading zero ("0" for 0); "tes5" with 0x107 gives "tes5_107.bsa"
    and 0 gives "{format}_0.bsa" for each format. *)
Theorem C4_archive_name_format :
  (forall format af, 0 <= af ->
     archive_name format af = (format ++ "_" ++ format_X af ++ ".bsa")%string
     /\ hex_value (format_X af) = af
     /\ (forall c, In c (list_ascii_of_string (format_X af)) ->
                   In c (list_ascii_of_string hex_alphabet))
     /\ (af = 0 -> format_X af = "0"%string)
     /\ (0 < af -> exists c rest, format_X af = String c rest /\ c <> "0"%char))
  /\ archive_name "tes5" 263 = "tes5_107.bsa"%string
  /\ Forall (fun format => archive_name format 0 = (format ++ "_0.bsa")%string) formats.
Proof.
  split; [|split; [reflexivity| repeat constructor]].
  intros format af Haf. split; [reflexivity|].
  unfold format_X.
  destruct (Z.eqb_spec af 0) as [->|Hne].
  - split; [reflexivity|]. split; [|split; [reflexivity|lia]].
    intros c Hc. simpl in Hc. destruct Hc as [<-|[]]. vm_compute. tauto.
  - destruct (Z.ltb_spec af 0) as [Hlt|_]; [lia|].
    assert (Hb := hex_fuel_bound af ltac:(lia)).
    split; [rewrite hex_digits_value by lia; simpl; lia|].
    split; [intros c Hc; destruct (hex_digits_chars _ _ _ _ Hc) as [[]|H]; exact H|].
    split; [intros; lia|].
    intros _. apply hex_digits_head. lia.
Qed.

Lemma C4_archive_name_format_witness :
  0 <= 263 /\ hex_value (format_X 263) = 263 /\ archive_name "sse" 263 = "sse_107.bsa"%string.
Proof.
  split; [lia|]. split; [|reflexivity].
  apply (proj1 (proj2 (proj1 C4_archive_name_format "sse"%string 263 ltac:(lia)))).
Defined.

(** ** What the startup and the loop write to the log *)

Lemma NR_ret {A} (a : A) : NR (ret a).
Proof. intros st. exists []. now rewrite app_nil_r. Qed.

Lemma NR_raise {A} e : NR (@raise A e).
Proof. intros st. exists []. now rewrite app_nil_r. Qed.

Lemma NR_bind {A B} (m : M A) (k : A -> M B) :
  NR m -> (forall a, NR (k a)) -> NR (bind m k).
Proof.
  intros Hm Hk st. unfold NR_at, bind.
  destruct (Hm st) as [n1 [H1 F1]].
  destruct (m st) as [[a|e] st'] eqn:E; simpl in H1 |- *.
  - destruct (Hk a st') as [n2 [H2 F2]]. exists (n1 ++ n2).
    rewrite H2, H1, app_assoc. split; [reflexivity|]. now apply Forall_app.
  - exists n1. auto.
Qed.

Lemma NR_get_bind {A} (k : os_state -> M A) :
  (forall st, NR_at (k st) st) -> NR (bind get k).
Proof. intros Hk st. apply (Hk st). Qed.

(** [put] of a state with the same log, then one logged event. *)
Lemma NR_put_log st c d f e :
  not_run e -> NR_at (put (mk_os c d f (trace st)) ;; log e) st.
Proof.
  intros He. exists [e]. split; [reflexivity|]. now repeat constructor.
Qed.

Lemma NR_os_chdir p : NR (os_chdir p).
Proof.
  unfold os_chdir. apply NR_get_bind. intros st.
  destruct (isdir st _); [|destruct (isfile st _)]; try apply NR_raise.
  apply NR_put_log. exact I.
Qed.

Lemma NR_os_mkdir q : NR (os_mkdir q).
Proof.
  unfold os_mkdir. apply NR_get_bind. intros st.
  destruct (exists_path st q); [apply NR_raise|].
  destruct (isdir st _); [|destruct (isfile st _)]; try apply NR_raise.
  apply NR_put_log. exact I.
Qed.

Lemma NR_mkdir_exist_ok b q : NR (mkdir_exist_ok b q).
Proof.
  intros st. unfold NR_at, mkdir_exist_ok.
  destruct (NR_os_mkdir q st) as [n [H F]].
  destruct (os_mkdir q st) as [[a|e] st'] eqn:E; simpl in H |- *; [eauto|].
  destruct (b && isdir st' q); simpl; eauto.
Qed.

Lemma NR_except_FileExistsError m : NR m -> NR (except_FileExistsError m).
Proof.
  intros Hm st. unfold NR_at, except_FileExistsError.
  destruct (Hm st) as [n [H F]].
  destruct (m st) as [[a|[]] st'] eqn:E; simpl in H |- *; eauto.
Qed.

Lemma NR_makedirs_abs fuel b q : NR (makedirs_abs fuel b q).
Proof.
  revert q; induction fuel as [|fuel IH]; intros q; simpl.
  - apply NR_mkdir_exist_ok.
  - apply NR_get_bind. intros st. apply NR_bind.
    + match goal with |- NR (if ?c then _ else _) => destruct c end.
      * apply NR_except_FileExistsError, IH.
      * apply NR_ret.
    + intros _. apply NR_mkdir_exist_ok.
Qed.

Lemma NR_os_makedirs p b : NR (os_makedirs p b).
Proof.
  unfold os_makedirs. apply NR_get_bind. intros st. apply NR_makedirs_abs.
Qed.

Section Loop.

Variable proc : abspath -> list string -> proc_result.

Lemma RUNS_ret {A} Q (Post : A -> Prop) a : Post a -> RUNS proc Q Post (ret a).
Proof.
  intros Ha st. simpl. repeat split; auto.
  - intros a' H. injection H as <-. exact Ha.
  - exists []. rewrite app_nil_r. repeat constructor.
Qed.

Lemma RUNS_raise {A} Q (Post : A -> Prop) e : RUNS proc Q Post (raise e).
Proof.
  intros st. simpl. repeat split; try discriminate.
  exists []. rewrite app_nil_r. split; [reflexivity|]. split; [constructor|].
  left. constructor.
Qed.

Lemma RUNS_bind {A B} Q (P1 : A -> Prop) (P2 : B -> Prop) m k :
  RUNS proc Q P1 m -> (forall a, P1 a -> RUNS proc Q P2 (k a)) -> RUNS proc Q P2 (bind m k).
Proof.
  intros Hm Hk st. unfold bind.
  specialize (Hm st).
  destruct (m st) as [[a|e] st1] eqn:E.
  - destruct Hm as (Hc1 & Hd1 & Hf1 & Hp1 & n1 & Ht1 & Hq1 & Hff1).
    specialize (Hk a (Hp1 a eq_refl) st1).
    destruct (k a st1) as [r2 st2].
    destruct Hk as (Hc2 & Hd2 & Hf2 & Hp2 & n2 & Ht2 & Hq2 & Hff2).
    rewrite Hc1 in Hq2.
    split; [congruence|]. split; [congruence|]. split; [congruence|]. split; [exact Hp2|].
    exists (n1 ++ n2). rewrite Ht2, Ht1, app_assoc.
    split; [reflexivity|]. split; [now apply Forall_app|].
    simpl in Hff1. destruct r2; simpl in *.
    + now apply Forall_app.
    + destruct Hff2 as [Hn|(pre & e' & -> & Hpre & He)].
      * left. now apply Forall_app.
      * right. exists (n1 ++ pre), e'. rewrite app_assoc.
        split; [reflexivity|]. split; [now apply Forall_app|exact He].
  - destruct Hm as (Hc1 & Hd1 & Hf1 & _ & n1 & Ht1 & Hq1 & Hff1).
    repeat split; auto; try discriminate.
    exists n1. auto.
Qed.

Lemma RUNS_subprocess_run (Q : list string -> Prop) argv :
  Q argv -> RUNS proc Q (fun _ => True) (subprocess_run proc argv).
Proof.
  intros Hq st. unfold subprocess_run, bind, get, log. simpl.
  destruct (proc (cwd st) argv) as [|[|c|c]] eqn:Ep; simpl;
    (split; [reflexivity|]); (split; [reflexivity|]); (split; [reflexivity|]);
    (split; [auto|]);
    exists [Ev_run (cwd st) argv]; (split; [reflexivity|]);
    (split; [repeat constructor; eauto|]); simpl.
  - right. exists [], (Ev_run (cwd st) argv). split; [reflexivity|].
    split; [constructor|]. simpl. now rewrite Ep.
  - constructor; [|constructor]. simpl. rewrite Ep. discriminate.
  - right. exists [], (Ev_run (cwd st) argv). split; [reflexivity|].
    split; [constructor|]. simpl. now rewrite Ep.
  - right. exists [], (Ev_run (cwd st) argv). split; [reflexivity|].
    split; [constructor|]. simpl. now rewrite Ep.
Qed.

Lemma RUNS_index_value Q o : RUNS proc Q (fun v => o = Some v) (index_value o).
Proof. destruct o; simpl; [apply RUNS_ret; reflexivity|apply RUNS_raise]. Qed.

Lemma RUNS_combinate_inner a_args format it :
  In format formats -> Forall (fun c => In c (powerset flag_values)) it ->
  RUNS proc (job_of a_args) (fun it' => it' = []) (combinate_inner proc a_args format it).
Proof.
  intros Hf; induction it as [|combo rest IH]; intros Hit; simpl.
  - now apply RUNS_ret.
  - inversion Hit as [|? ? Hc Hrest]; subst.
    apply RUNS_bind with (P1 := fun af => accumulate_af combo = Some af);
      [apply RUNS_index_value|].
    intros af Haf. rewrite accumulate_af_fold in Haf. injection Haf as <-.
    apply RUNS_bind with (P1 := fun _ => True).
    + apply RUNS_subprocess_run. exists format, combo. auto.
    + intros _ _. now apply IH.
Qed.

Lemma RUNS_combinate_outer a_args fmts it :
  incl fmts formats -> Forall (fun c => In c (powerset flag_values)) it ->
  RUNS proc (job_of a_args) (fun _ => True) (combinate_outer proc a_args fmts it).
Proof.
  revert it; induction fmts as [|format fmts IH]; intros it Hf Hit; simpl.
  - now apply RUNS_ret.
  - apply RUNS_bind with (P1 := fun it' => it' = []).
    + apply RUNS_combinate_inner; [apply Hf; now left|exact Hit].
    + intros it' ->. apply IH; [intros x Hx; apply Hf; now right|constructor].
Qed.

Lemma RUNS_combinate a_args : RUNS proc (job_of a_args) (fun _ => True) (combinate proc a_args).
Proof.
  apply RUNS_combinate_outer; [intros x Hx; exact Hx|].
  apply Forall_forall. auto.
Qed.

Lemma RUNS_weaken {A} (Q Q' : list string -> Prop) (P : A -> Prop) m :
  (forall v, Q v -> Q' v) -> RUNS proc Q P m -> RUNS proc Q' P m.
Proof.
  intros HQ Hm st. specialize (Hm st). destruct (m st) as [r st'].
  destruct Hm as (H1 & H2 & H3 & H4 & new & H5 & H6 & H7).
  repeat split; auto. exists new. split; [exact H5|]. split; [|exact H7].
  eapply Forall_impl; [|exact H6]. intros e (v & -> & Hv). eauto.
Qed.

Lemma not_run_no_failure l : Forall not_run l -> no_failure proc l.
Proof. apply Forall_impl. intros [] H; simpl in *; tauto. Qed.

Lemma fail_fast_prefix {A} n1 l (r : res A) :
  no_failure proc n1 -> fail_fast proc l r -> fail_fast proc (n1 ++ l) r.
Proof.
  intros Hn. destruct r; simpl.
  - intros H. now apply Forall_app.
  - intros [H|(pre & ev & -> & Hpre & He)].
    + left. now apply Forall_app.
    + right. exists (n1 ++ pre), ev. rewrite app_assoc. split; [reflexivity|].
      split; [now apply Forall_app|exact He].
Qed.

Lemma SHAPE_of_RUNS {A} Q (P : A -> Prop) m : RUNS proc Q P m -> SHAPE proc Q m.
Proof.
  intros Hm st. specialize (Hm st). destruct (m st) as [r st'].
  destruct Hm as (_ & _ & _ & _ & new & Ht & Hq & Hff).
  exists [], new, (cwd st). auto.
Qed.

Lemma SHAPE_bind_NR {A B} Q (m : M A) (k : A -> M B) :
  NR m -> (forall a, SHAPE proc Q (k a)) -> SHAPE proc Q (bind m k).
Proof.
  intros Hm Hk st. unfold bind.
  destruct (Hm st) as [n1 [H1 F1]].
  destruct (m st) as [[a|e] st1] eqn:E; simpl in H1.
  - specialize (Hk a st1). destruct (k a st1) as [r st2].
    destruct Hk as (S & N & c & Ht & HS & HN & Hff).
    exists (n1 ++ S), N, c. rewrite Ht, H1, !app_assoc.
    split; [reflexivity|]. split; [now apply Forall_app|]. split; [exact HN|].
    rewrite <- app_assoc. apply fail_fast_prefix; [now apply not_run_no_failure|exact Hff].
  - exists n1, [], (cwd st). rewrite ?app_nil_r.
    split; [exact H1|]. split; [exact F1|]. split; [constructor|].
    simpl. left. rewrite ?app_nil_r. now apply not_run_no_failure.
Qed.

Lemma SHAPE_main sd a_args : SHAPE proc (job_of a_args) (main proc sd a_args).
Proof.
  unfold main.
  apply SHAPE_bind_NR; [apply NR_os_chdir|intros _].
  apply SHAPE_bind_NR; [apply NR_os_makedirs|intros _].
  apply SHAPE_bind_NR; [apply NR_os_chdir|intros _].
  eapply SHAPE_of_RUNS, RUNS_combinate.
Qed.

End Loop.

Lemma run_script_shape proc sd a_args cwd0 dirs0 files0 :
  let '(code, st) := run_script proc sd a_args cwd0 dirs0 files0 in
  exists r S N c, code = exit_status r /\ trace st = S ++ N /\ Forall not_run S
    /\ Forall (fun e => exists v, e = Ev_run c v /\ job_of a_args v) N
    /\ fail_fast proc (S ++ N) r.
Proof.
  unfold run_script.
  pose proof (SHAPE_main proc sd a_args (initial_state cwd0 dirs0 files0)) as H.
  destruct (main proc sd a_args _) as [r st].
  destruct H as (S & N & c & Ht & HS & HN & Hff).
  exists r, S, N, c. auto.
Qed.

Lemma in_run_of_shape a_args S N c c' v :
  Forall not_run S -> Forall (fun e => exists v, e = Ev_run c v /\ job_of a_args v) N ->
  In (Ev_run c' v) (S ++ N) -> c' = c /\ job_of a_args v.
Proof.
  intros HS HN Hin. apply in_app_or in Hin as [Hin|Hin].
  - rewrite Forall_forall in HS. destruct (HS _ Hin).
  - rewrite Forall_forall in HN. destruct (HN _ Hin) as (v' & Heq & Hv).
    injection Heq as -> ->. auto.
Qed.

Lemma failing_last proc pre x post pre' e :
  pre ++ x :: post = pre' ++ [e] -> no_failure proc pre' -> failing proc x -> post = [].
Proof.
  intros Heq Hpre Hx.
  destruct post as [|y post] using rev_ind; [reflexivity|].
  exfalso. rewrite app_comm_cons, app_assoc in Heq.
  apply app_inj_tail in Heq as [Heq _].
  unfold no_failure in Hpre. rewrite Forall_forall in Hpre.
  apply (Hpre x); [|exact Hx]. rewrite <- Heq. apply in_or_app. right. now left.
Qed.

Lemma count_runs_app l1 l2 : count_runs (l1 ++ l2) = (count_runs l1 + count_runs l2)%nat.
Proof. induction l1 as [|[] l1 IH]; simpl; auto. Qed.

Lemma count_runs_not_run l : Forall not_run l -> count_runs l = O.
Proof. induction 1 as [|[] l' H _ IH]; simpl in *; tauto. Qed.

(** C6: when an invocation fails (the archiver is not executable or exits
    non-zero), nothing is logged after it and the process exits with status
    1; if the archiver path never starts, at most one invocation is made. *)
Theorem C6_fail_fast :
  forall proc sd a_args cwd0 dirs0 files0,
    let '(code, st) := run_script proc sd a_args cwd0 dirs0 files0 in
    (forall pre c v post,
        trace st = pre ++ Ev_run c v :: post -> run_ok (proc c v) = false ->
        post = [] /\ code = 1)
    /\ ((forall c v, proc c (bsarch a_args :: v) = NotExecutable) ->
        (count_runs (trace st) <= 1)%nat).
Proof.
  intros proc sd a_args cwd0 dirs0 files0.
  pose proof (run_script_shape proc sd a_args cwd0 dirs0 files0) as H.
  destruct (run_script _ _ _ _ _ _) as [code st].
  destruct H as (r & S & N & c & -> & Ht & HS & HN & Hff).
  assert (Hfirst : forall pre c' v post,
             trace st = pre ++ Ev_run c' v :: post -> run_ok (proc c' v) = false ->
             post = [] /\ exit_status r = 1).
  { intros pre c' v post Htr Hf. rewrite Ht in Htr.
    assert (Hno : ~ no_failure proc (S ++ N)).
    { intros Hn. unfold no_failure in Hn. rewrite Forall_forall in Hn.
      apply (Hn (Ev_run c' v)); [rewrite Htr; apply in_or_app; right; now left|exact Hf]. }
    destruct r as [[]|e]; simpl in Hff; [contradiction|].
    destruct Hff as [Hn|(pre' & e' & Heq & Hpre & He)]; [contradiction|].
    split; [|reflexivity].
    rewrite Htr in Heq. exact (failing_last proc _ _ _ _ _ Heq Hpre Hf). }
  split; [exact Hfirst|].
  intros Hne. rewrite Ht, count_runs_app, (count_runs_not_run S HS).
  destruct N as [|e N']; simpl; [lia|].
  inversion HN as [|? ? (v & -> & (format & combo & _ & _ & Hv)) HN']; subst.
  destruct (Hfirst S c (combo_argv a_args format (fold_left or_step combo 0)) N')
    as [-> _]; [now rewrite Ht|unfold combo_argv; now rewrite Hne|].
  simpl. lia.
Qed.

Lemma run_in_trace proc sd a_args cwd0 dirs0 files0 c v :
  In (Ev_run c v) (trace (snd (run_script proc sd a_args cwd0 dirs0 files0))) ->
  job_of a_args v.
Proof.
  pose proof (run_script_shape proc sd a_args cwd0 dirs0 files0) as H.
  destruct (run_script _ _ _ _ _ _) as [code st]. simpl.
  destruct H as (r & S & N & c' & _ & Ht & HS & HN & _).
  rewrite Ht. intros Hin. exact (proj2 (in_run_of_shape _ _ _ _ _ _ HS HN Hin)).
Qed.

(** C5: every invocation gets exactly six arguments: the archiver path,
    ["pack"], the source directory, [{format}_{af:X}.bsa], [-{format}] (one
    of -tes4, -tes5, -sse) and [-af:0x{af:X}]. *)
Theorem C5_invocation_arguments :
  forall proc sd a_args cwd0 dirs0 files0 c v,
    In (Ev_run c v) (trace (snd (run_script proc sd a_args cwd0 dirs0 files0))) ->
    exists format af,
      v = [bsarch a_args; "pack"; directory a_args;
           format ++ "_" ++ format_X af ++ ".bsa";
           "-" ++ format;
           "-af:0x" ++ format_X af]%string
      /\ In ("-" ++ format)%string ["-tes4"; "-tes5"; "-sse"]%string
      /\ List.length v = 6%nat.
Proof.
  intros proc sd a_args cwd0 dirs0 files0 c v Hin.
  destruct (run_in_trace _ _ _ _ _ _ _ _ Hin) as (format & combo & Hf & _ & ->).
  exists format, (fold_left or_step combo 0).
  split; [reflexivity|]. split; [|reflexivity].
  simpl in Hf. destruct Hf as [<-|[<-|[<-|[]]]]; simpl; tauto.
Qed.

Lemma powerset_submask combo :
  In combo (powerset flag_values) -> Z.lor (fold_left or_step combo 0) 263 = 263.
Proof.
  assert (Hall : forallb (fun c => Z.lor (fold_left or_step c 0) 263 =? 263)
                         (powerset flag_values) = true) by reflexivity.
  rewrite forallb_forall in Hall. intros Hin. apply Z.eqb_eq, Hall, Hin.
Qed.

Lemma testbit_263 n : Z.testbit 263 n = true -> n = 0 \/ n = 1 \/ n = 2 \/ n = 8.
Proof.
  intros Hb.
  destruct (Z.ltb_spec n 0) as [Hn|Hn]; [rewrite Z.testbit_neg_r in Hb by lia; discriminate|].
  destruct (Z.leb_spec n 8) as [Hle|Hgt].
  - assert (n = 0 \/ n = 1 \/ n = 2 \/ n = 3 \/ n = 4 \/ n = 5 \/ n = 6 \/ n = 7 \/ n = 8)
      as Hc by lia.
    repeat destruct Hc as [Hc|Hc]; subst; try discriminate; tauto.
  - rewrite Z.bits_above_log2 in Hb; [discriminate|lia|].
    change (Z.log2 263) with 8. lia.
Qed.

(** C10: the value passed in [-af] is always a submask of 0x107: only bits
    0, 1, 2 and 8 (0x1, 0x2, 0x4, 0x100) can be set. *)
Theorem C10_af_submask :
  forall proc sd a_args cwd0 dirs0 files0 c v,
    In (Ev_run c v) (trace (snd (run_script proc sd a_args cwd0 dirs0 files0))) ->
    exists af, nth 5 v ""%string = af_option af
      /\ Z.lor af 263 = 263
      /\ (forall n, Z.testbit af n = true -> n = 0 \/ n = 1 \/ n = 2 \/ n = 8).
Proof.
  intros proc sd a_args cwd0 dirs0 files0 c v Hin.
  destruct (run_in_trace _ _ _ _ _ _ _ _ Hin) as (format & combo & _ & Hc & ->).
  exists (fold_left or_step combo 0).
  split; [reflexivity|]. split; [now apply powerset_submask|].
  intros n Hb. apply testbit_263.
  rewrite <- (powerset_submask combo Hc), Z.lor_spec, Hb. reflexivity.
Qed.

Lemma split_after_prefix {A} (S N pre : list A) x post :
  ~ In x S -> S ++ N = pre ++ x :: post -> exists m, N = m ++ x :: post.
Proof.
  revert pre; induction S as [|s S IH]; intros pre Hx Heq; simpl in *.
  - exists pre. exact Heq.
  - destruct pre as [|p pre]; simpl in Heq; injection Heq as Hs Heq.
    + subst. tauto.
    + apply (IH pre); tauto.
Qed.

(** C8: the invocation loop keeps the working directory and logs nothing
    but invocations in it; in a whole run, every event after an invocation
    is an invocation in the same directory, never a [chdir]. *)
Theorem C8_cwd_changed_only_at_startup :
  (forall proc a_args st,
     cwd (snd (combinate proc a_args st)) = cwd st
     /\ exists new, trace (snd (combinate proc a_args st)) = trace st ++ new
                    /\ Forall (fun e => exists v, e = Ev_run (cwd st) v) new)
  /\ (forall proc sd a_args cwd0 dirs0 files0 pre c v post,
        trace (snd (run_script proc sd a_args cwd0 dirs0 files0)) = pre ++ Ev_run c v :: post ->
        Forall (fun e => (forall p, e <> Ev_chdir p) /\ exists v', e = Ev_run c v') post).
Proof.
  split.
  - intros proc a_args st.
    pose proof (RUNS_combinate proc a_args st) as H.
    destruct (combinate proc a_args st) as [r st']. simpl.
    destruct H as (Hc & _ & _ & _ & new & Ht & Hq & _).
    split; [exact Hc|]. exists new. split; [exact Ht|].
    eapply Forall_impl; [|exact Hq]. intros e (v & -> & _). eauto.
  - intros proc sd a_args cwd0 dirs0 files0 pre c v post.
    pose proof (run_script_shape proc sd a_args cwd0 dirs0 files0) as H.
    destruct (run_script _ _ _ _ _ _) as [code st]. simpl.
    destruct H as (r & S & N & c' & _ & Ht & HS & HN & _).
    rewrite Ht. intros Htr.
    assert (HnS : ~ In (Ev_run c v) S).
    { intros Hin. rewrite Forall_forall in HS. exact (HS _ Hin). }
    destruct (split_after_prefix _ _ _ _ _ HnS Htr) as [m ->].
    apply Forall_app in HN as [_ HN]. inversion HN as [|? ? (v0 & Hev & _) Hpost]; subst.
    injection Hev as <- _.
    eapply Forall_impl; [|exact Hpost]. intros e (v' & -> & _).
    split; [intros p; discriminate|eauto].
Qed.

(** ** The startup of [main] *)

Lemma isdir_in st q : In q (dirs st) -> isdir st q = true.
Proof.
  intros Hin. unfold isdir. destruct q; [reflexivity|].
  destruct (in_dec path_eq_dec _ _); tauto.
Qed.

Lemma isdir_snoc st q x :
  isdir st (q ++ [x]) = if in_dec path_eq_dec (q ++ [x]) (dirs st) then true else false.
Proof. unfold isdir. destruct q; reflexivity. Qed.

Lemma chdir_ok st p :
  isdir st (resolve (cwd st) p) = true ->
  os_chdir p st
  = (Ok tt, mk_os (resolve (cwd st) p) (dirs st) (files st)
                  (trace st ++ [Ev_chdir (resolve (cwd st) p)])).
Proof. intros H. unfold os_chdir, bind, get, put, log. simpl. now rewrite H. Qed.

Lemma makedirs_bin_ok st :
  isdir st (cwd st) = true -> ~ In (cwd st ++ ["bin"]%string) (files st) ->
  os_makedirs (Rel ["bin"%string]) true st
  = (Ok tt, mk_os (cwd st) (bin_dirs (cwd st ++ ["bin"]%string) (dirs st)) (files st)
                  (trace st ++ bin_mkdir_events (cwd st ++ ["bin"]%string) (dirs st))).
Proof.
  intros Hd Hf. unfold os_makedirs, bind, get. simpl resolve.
  rewrite length_app. simpl List.length. rewrite Nat.add_comm. simpl makedirs_abs.
  unfold bind, get. rewrite removelast_last.
  replace (match cwd st with [] => false | _ :: _ => negb (exists_path st (cwd st)) end)
    with false by (unfold exists_path; rewrite Hd; destruct (cwd st); reflexivity).
  unfold ret, mkdir_exist_ok, os_mkdir, bind, get, exists_path, isfile.
  rewrite isdir_snoc. unfold bin_dirs, bin_mkdir_events.
  destruct (in_dec path_eq_dec (cwd st ++ ["bin"]%string) (files st)) as [Hin|_]; [tauto|].
  destruct (in_dec path_eq_dec (cwd st ++ ["bin"]%string) (dirs st)) as [Hin|Hnin].
  - simpl. unfold raise. rewrite isdir_snoc.
    destruct (in_dec path_eq_dec _ _); [|tauto]. simpl.
    destruct st; simpl; now rewrite app_nil_r.
  - simpl. rewrite removelast_last, Hd. unfold put, log. reflexivity.
Qed.

Lemma main_startup proc sd a_args cwd0 dirs0 files0 :
  In sd dirs0 -> ~ In (sd ++ ["bin"]%string) files0 ->
  main proc sd a_args (initial_state cwd0 dirs0 files0)
  = combinate proc a_args
      (mk_os (sd ++ ["bin"]%string) (bin_dirs (sd ++ ["bin"]%string) dirs0) files0
             ([Ev_chdir sd] ++ bin_mkdir_events (sd ++ ["bin"]%string) dirs0
              ++ [Ev_chdir (sd ++ ["bin"]%string)])).
Proof.
  intros Hsd Hf. unfold main, bind at 1. cbv beta zeta.
  rewrite chdir_ok by (apply isdir_in; exact Hsd). unfold bind at 1.
  rewrite makedirs_bin_ok by (simpl; first [apply isdir_in; exact Hsd | exact Hf]).
  unfold bind at 1. rewrite chdir_ok.
  - simpl. rewrite ?app_assoc. reflexivity.
  - simpl. apply isdir_in. simpl. unfold bin_dirs.
    destruct (in_dec path_eq_dec _ _); [assumption|].
    apply in_or_app. right. now left.
Qed.

Lemma subprocess_run_state proc argv st :
  snd (subprocess_run proc argv st)
  = mk_os (cwd st) (dirs st) (files st) (trace st ++ [Ev_run (cwd st) argv]).
Proof.
  unfold subprocess_run, bind, get, log. simpl.
  destruct (proc (cwd st) argv) as [|[|c|c]]; reflexivity.
Qed.

Lemma combinate_unfold proc a_args st :
  combinate proc a_args st
  = bind (bind (subprocess_run proc (combo_argv a_args "tes4" 0))
               (fun _ => combinate_inner proc a_args "tes4" (tl (powerset flag_values))))
         (fun it' => combinate_outer proc a_args ["tes5"; "sse"]%string it') st.
Proof. reflexivity. Qed.

Lemma RUNS_trace_ext {A} proc Q (P : A -> Prop) m st :
  RUNS proc Q P m -> exists new, trace (snd (m st)) = trace st ++ new.
Proof.
  intros H. specialize (H st). destruct (m st) as [r st'].
  destruct H as (_ & _ & _ & _ & new & Ht & _). eauto.
Qed.

Lemma first_event_bind {A B} (m : M A) (k : A -> M B) st ev :
  (exists rest, trace (snd (m st)) = trace st ++ ev :: rest) ->
  (forall a st1, m st = (Ok a, st1) -> exists new, trace (snd (k a st1)) = trace st1 ++ new) ->
  exists rest, trace (snd (bind m k st)) = trace st ++ ev :: rest.
Proof.
  intros [rest Hm] Hk. unfold bind.
  destruct (m st) as [[a|e] st1] eqn:E; simpl in Hm |- *; [|eauto].
  destruct (Hk a st1 eq_refl) as [new Hn].
  exists (rest ++ new). rewrite Hn, Hm, <- app_assoc. reflexivity.
Qed.

Lemma combinate_first_run proc a_args st :
  exists rest, trace (snd (combinate proc a_args st))
               = trace st ++ Ev_run (cwd st) (combo_argv a_args "tes4" 0) :: rest.
Proof.
  assert (Htl : Forall (fun c => In c (powerset flag_values)) (tl (powerset flag_values))).
  { apply Forall_forall. intros x Hx.
    destruct (powerset flag_values); [destruct Hx|now right]. }
  assert (HR : RUNS proc (job_of a_args) (fun it' => it' = [])
                 (bind (subprocess_run proc (combo_argv a_args "tes4" 0))
                       (fun _ => combinate_inner proc a_args "tes4" (tl (powerset flag_values))))).
  { apply RUNS_bind with (P1 := fun _ => True).
    - apply RUNS_subprocess_run. exists "tes4"%string, []. split; [now left|].
      split; [vm_compute; now left|reflexivity].
    - intros _ _. apply RUNS_combinate_inner; [now left|exact Htl]. }
  rewrite combinate_unfold. apply first_event_bind.
  - apply first_event_bind.
    + exists []. now rewrite subprocess_run_state.
    + intros _ st1 _. apply (RUNS_trace_ext proc (job_of a_args) (fun it' => it' = [])).
      apply RUNS_combinate_inner; [now left|exact Htl].
  - intros it' st1 E. specialize (HR st). rewrite E in HR.
    destruct HR as (_ & _ & _ & Hp & _). rewrite (Hp it' eq_refl).
    apply (RUNS_trace_ext proc (job_of a_args) (fun _ => True)).
    apply RUNS_combinate_outer; [|constructor].
    intros x Hx; simpl in *; tauto.
Qed.

Lemma job_output_plain a_args v : job_of a_args v -> plain_name (nth 3 v ""%string).
Proof.
  intros (format & combo & Hf & Hc & ->). simpl nth.
  assert (Hall : forallb (fun f => forallb (fun c =>
             negb (existsb (Ascii.eqb "/") (list_ascii_of_string
                                              (archive_name f (fold_left or_step c 0)))))
             (powerset flag_values)) formats = true) by reflexivity.
  rewrite forallb_forall in Hall. specialize (Hall _ Hf).
  rewrite forallb_forall in Hall. specialize (Hall _ Hc).
  intros Hin. apply negb_true_iff in Hall.
  assert (existsb (Ascii.eqb "/") (list_ascii_of_string
                                     (archive_name format (fold_left or_step combo 0))) = true)
    as Hex by (apply existsb_exists; exists "/"%char; split; [exact Hin|apply Ascii.eqb_refl]).
  congruence.
Qed.

(** C7: with the script directory present and no plain file named [bin]
    in it, [main] creates [bin] (or reuses it when it already exists),
    changes into it, and only then starts invocations, at least one, all
    run in [bin] with an output name that has no directory part. *)
Theorem C7_bin_directory :
  forall (proc : abspath -> list string -> proc_result) (sd : abspath) (a_args : Namespace)
         (cwd0 : abspath) (dirs0 files0 : list abspath),
    In sd dirs0 -> ~ In (sd ++ ["bin"]%string) files0 ->
    let binp := sd ++ ["bin"%string] in
    let '(code, st) := run_script proc sd a_args cwd0 dirs0 files0 in
    In binp (dirs st)
    /\ dirs st = bin_dirs binp dirs0
    /\ (In binp dirs0 -> dirs st = dirs0)
    /\ exists N,
         trace st = [Ev_chdir sd] ++ bin_mkdir_events binp dirs0 ++ [Ev_chdir binp] ++ N
         /\ N <> []
         /\ Forall (fun e => exists v, e = Ev_run binp v /\ plain_name (nth 3 v ""%string)) N.
Proof.
  intros proc sd a_args cwd0 dirs0 files0 Hsd Hf binp.
  unfold run_script. rewrite main_startup by assumption.
  set (st1 := mk_os _ _ _ _).
  pose proof (RUNS_combinate proc a_args st1) as HR.
  destruct (combinate_first_run proc a_args st1) as [rest Hfirst].
  destruct (combinate proc a_args st1) as [r st] eqn:E. simpl in Hfirst |- *.
  destruct HR as (_ & Hd & _ & _ & new & Ht & Hq & _).
  assert (Hdirs : dirs st = bin_dirs binp dirs0) by (rewrite Hd; reflexivity).
  split; [|split; [exact Hdirs|split]].
  - rewrite Hdirs. unfold bin_dirs. destruct (in_dec path_eq_dec _ _); [assumption|].
    apply in_or_app. right. now left.
  - intros Hin. rewrite Hdirs. unfold bin_dirs. now destruct (in_dec path_eq_dec _ _).
  - subst binp. exists new. split; [rewrite Ht; simpl; now rewrite <- app_assoc|].
    split.
    + intros ->. rewrite app_nil_r in Ht. rewrite Ht in Hfirst.
      apply (f_equal (@List.length event)) in Hfirst. simpl in Hfirst.
      rewrite ?length_app in Hfirst. simpl in Hfirst. lia.
    + eapply Forall_impl; [|exact Hq]. intros e (v & -> & Hv).
      exists v. split; [reflexivity|]. now apply (job_output_plain a_args).
Qed.

(** ** The shared iterator: only the first format is ever packed *)

Lemma RUNS_inner_format proc a_args format it :
  Forall (fun c => In c (powerset flag_values)) it ->
  RUNS proc (fun v => exists combo, In combo (powerset flag_values)
                         /\ v = combo_argv a_args format (fold_left or_step combo 0))
       (fun it' => it' = []) (combinate_inner proc a_args format it).
Proof.
  induction it as [|combo rest IH]; intros Hit; simpl.
  - now apply RUNS_ret.
  - inversion Hit as [|? ? Hc Hrest]; subst.
    apply RUNS_bind with (P1 := fun af => accumulate_af combo = Some af);
      [apply RUNS_index_value|].
    intros af Haf. rewrite accumulate_af_fold in Haf. injection Haf as <-.
    apply RUNS_bind with (P1 := fun _ => True).
    + apply RUNS_subprocess_run. exists combo. auto.
    + intros _ _. now apply IH.
Qed.

(** Whatever the archiver does, [combinate] never starts it with a format
    other than [tes4]: the first pass over [combinations] exhausts the
    iterator, and the passes for [tes5] and [sse] find it empty. *)
Lemma combinate_only_tes4 proc a_args :
  RUNS proc (tes4_job a_args) (fun _ => True) (combinate proc a_args).
Proof.
  unfold combinate, formats. cbn [combinate_outer].
  apply RUNS_bind with (P1 := fun it' => it' = []).
  - assert (Hall : Forall (fun c => In c (powerset flag_values)) (powerset flag_values))
      by (apply Forall_forall; auto).
    exact (RUNS_inner_format proc a_args "tes4"%string _ Hall).
  - intros it' ->. cbn [combinate_inner].
    apply RUNS_bind with (P1 := fun it' => it' = []); [now apply RUNS_ret|].
    intros it'' ->. cbn [combinate_inner].
    apply RUNS_bind with (P1 := fun it' => it' = []); [now apply RUNS_ret|].
    intros _ _. now apply RUNS_ret.
Qed.

(** C1: with an archiver that always succeeds, a run makes 16 invocations,
    not 3 x 16 = 48, and all of them with [-tes4]. *)
Theorem C1_iterator_exhausted_after_first_format :
  let '(code, st) := run_script always_ok demo_sd demo_args [] demo_dirs [] in
  code = 0
  /\ count_runs (trace st) = 16%nat
  /\ count_runs (trace st) <> (3 * 16)%nat
  /\ Forall (fun e => run_format e = None \/ run_format e = Some "-tes4"%string) (trace st)
  /\ ~ In (Some "-tes5"%string) (map run_format (trace st))
  /\ ~ In (Some "-sse"%string) (map run_format (trace st)).
Proof.
  vm_compute.
  split; [reflexivity|]. split; [reflexivity|]. split; [discriminate|].
  split.
  { repeat (constructor; [first [left; reflexivity | right; reflexivity]|]). constructor. }
  split; intros H; repeat destruct H as [H|H]; try discriminate; contradiction.
Qed.

(** ** Witnesses at concrete runs *)

Lemma C6_fail_fast_witness :
  skipn 7 (trace (snd (run_script fail_on_af4 demo_sd demo_args [] demo_dirs [])))
  = [] /\ fst (run_script fail_on_af4 demo_sd demo_args [] demo_dirs []) = 1.
Proof.
  pose proof (C6_fail_fast fail_on_af4 demo_sd demo_args [] demo_dirs []) as H.
  destruct (run_script fail_on_af4 demo_sd demo_args [] demo_dirs []) as [code st] eqn:E.
  simpl. destruct H as [H _].
  apply (H (firstn 6 (trace st)) demo_bin (combo_argv demo_args "tes4" 4) (skipn 7 (trace st))).
  - replace st with (snd (run_script fail_on_af4 demo_sd demo_args [] demo_dirs []))
      by (rewrite E; reflexivity).
    vm_compute. reflexivity.
  - vm_compute. reflexivity.
Defined.

Lemma C5_invocation_arguments_witness :
  exists format af,
    combo_argv demo_args "tes4" 263
    = [bsarch demo_args; "pack"; directory demo_args;
       format ++ "_" ++ format_X af ++ ".bsa";
       "-" ++ format;
       "-af:0x" ++ format_X af]%string
    /\ In ("-" ++ format)%string ["-tes4"; "-tes5"; "-sse"]%string
    /\ List.length (combo_argv demo_args "tes4" 263) = 6%nat.
Proof.
  apply (C5_invocation_arguments always_ok demo_sd demo_args [] demo_dirs [] demo_bin).
  vm_compute. repeat (first [left; reflexivity | right]).
Defined.

Lemma C10_af_submask_witness :
  exists af, nth 5 (combo_argv demo_args "tes4" 263) ""%string = af_option af
    /\ Z.lor af 263 = 263
    /\ (forall n, Z.testbit af n = true -> n = 0 \/ n = 1 \/ n = 2 \/ n = 8).
Proof.
  apply (C10_af_submask always_ok demo_sd demo_args [] demo_dirs [] demo_bin).
  vm_compute. repeat (first [left; reflexivity | right]).
Defined.

Lemma C8_cwd_changed_only_at_startup_witness :
  Forall (fun e => (forall p, e <> Ev_chdir p) /\ exists v', e = Ev_run demo_bin v')
    (skipn 4 (trace (snd (run_script always_ok demo_sd demo_args [] demo_dirs [])))).
Proof.
  apply (proj2 C8_cwd_changed_only_at_startup always_ok demo_sd demo_args [] demo_dirs []
           (firstn 3 (trace (snd (run_script always_ok demo_sd demo_args [] demo_dirs []))))
           demo_bin (combo_argv demo_args "tes4" 0)).
  vm_compute. reflexivity.
Defined.

Lemma C7_bin_directory_witness :
  In demo_sd demo_dirs /\ ~ In (demo_sd ++ ["bin"%string]) []
  /\ In demo_bin (dirs (snd (run_script always_ok demo_sd demo_args [] demo_dirs []))).
Proof.
  assert (H1 : In demo_sd demo_dirs) by (right; left; reflexivity).
  assert (H2 : ~ In (demo_sd ++ ["bin"%string]) []) by (intros []).
  split; [exact H1|]. split; [exact H2|].
  pose proof (C7_bin_directory always_ok demo_sd demo_args [] demo_dirs [] H1 H2) as H.
  cbv zeta in H.
  destruct (run_script always_ok demo_sd demo_args [] demo_dirs []) as [code st].
  exact (proj1 H).
Defined.

(** ** [powerset] on any list *)

Lemma subseq_nil_l {A} (s : list A) : subseq [] s.
Proof. induction s; constructor; auto. Qed.

Lemma subseq_nil_r {A} (l : list A) : subseq l [] -> l = [].
Proof. intros H. inversion H. reflexivity. Qed.

Lemma subseq_in {A} (l s : list A) x : subseq l s -> In x l -> In x s.
Proof.
  induction 1; simpl; [tauto| |]; intros Hx; [right; auto|].
  destruct Hx as [->|Hx]; [now left|right; auto].
Qed.

Lemma subseq_length {A} (l s : list A) : subseq l s -> (List.length l <= List.length s)%nat.
Proof. induction 1; simpl; lia. Qed.

Lemma combinations_spec {A} (s : list A) r c :
  In c (combinations s r) <-> subseq c s /\ List.length c = r.
Proof.
  revert r c; induction s as [|x xs IH]; intros r c.
  - destruct r as [|r]; simpl.
    + split; [intros [<-|[]]; split; [constructor|reflexivity]|].
      intros [Hs _]. left. symmetry. now apply subseq_nil_r.
    + split; [tauto|]. intros [Hs Hl]. apply subseq_nil_r in Hs. subst. discriminate.
  - destruct r as [|r]; simpl.
    + split; [intros [<-|[]]; split; [apply subseq_nil_l|reflexivity]|].
      intros [_ Hl]. left. destruct c; [reflexivity|discriminate].
    + rewrite in_app_iff, in_map_iff. split.
      * intros [(c' & <- & Hc')|Hc].
        -- apply IH in Hc' as [Hs Hl]. split; [now constructor|simpl; lia].
        -- apply IH in Hc as [Hs Hl]. split; [now constructor|exact Hl].
      * intros [Hs Hl]. inversion Hs as [|? ? ? Hs'|? l ? Hs']; subst.
        -- right. apply IH. auto.
        -- left. exists l. split; [reflexivity|]. apply IH. simpl in Hl. split; [exact Hs'|lia].
Qed.

(** Every element [powerset] yields is a sub-sequence of its input, and
    every sub-sequence is yielded. *)
Theorem powerset_spec {A} (s : list A) c : In c (powerset s) <-> subseq c s.
Proof.
  unfold powerset. rewrite in_flat_map. split.
  - intros (r & _ & Hc). now apply combinations_spec in Hc.
  - intros Hs. exists (List.length c). split.
    + apply in_seq. apply subseq_length in Hs. lia.
    + apply combinations_spec. auto.
Qed.

Lemma combinations_0 {A} (s : list A) : combinations s 0 = [[]].
Proof. destruct s; reflexivity. Qed.

Lemma list_sum_map_add {A} (f g : A -> nat) l :
  list_sum (map (fun x => (f x + g x)%nat) l) = (list_sum (map f l) + list_sum (map g l))%nat.
Proof. induction l; simpl; [reflexivity|]. rewrite IHl. lia. Qed.

Lemma sum_combinations_length {A} (s : list A) N :
  (List.length s <= N)%nat ->
  list_sum (map (fun r => List.length (combinations s r)) (seq 0 (S N))) = (2 ^ List.length s)%nat.
Proof.
  revert N; induction s as [|x xs IH]; intros N HN.
  - cbn [seq map list_sum]. rewrite <- seq_shift, map_map. simpl.
    induction (seq 0 N); simpl; auto.
  - destruct N as [|N]; [simpl in HN; lia|].
    change (seq 0 (S (S N))) with (0 :: seq 1 (S N))%nat.
    cbn [map list_sum]. rewrite <- seq_shift, map_map.
    change (fun r => List.length (combinations (x :: xs) (S r)))
      with (fun r => List.length (map (cons x) (combinations xs r) ++ combinations xs (S r))).
    rewrite (map_ext _ (fun r => (List.length (combinations xs r) + List.length (combinations xs (S r)))%nat))
      by (intros r; now rewrite length_app, length_map).
    change (list_sum (?a :: ?l)) with (a + list_sum l)%nat.
    rewrite (list_sum_map_add (fun r => List.length (combinations xs r))
      (fun r => List.length (combinations xs (S r)))).
    simpl in HN. rewrite (IH N) by lia.
    pose proof (IH (S N) ltac:(lia)) as H2.
    change (seq 0 (S (S N))) with (0 :: seq 1 (S N))%nat in H2.
    cbn [map list_sum] in H2. rewrite <- seq_shift, map_map in H2.
    change (list_sum (?a :: ?l)) with (a + list_sum l)%nat in H2.
    rewrite combinations_0 in H2 |- *. cbn [List.length] in H2 |- *.
    rewrite Nat.pow_succ_r'. lia.
Qed.

(** [powerset] of a list of length [n] yields [2 ^ n] elements. *)
Theorem powerset_length {A} (s : list A) :
  List.length (powerset s) = (2 ^ List.length s)%nat.
Proof.
  unfold powerset. rewrite length_flat_map, Nat.add_1_r.
  apply sum_combinations_length. lia.
Qed.

Lemma NoDup_map_cons {A} (x : A) l : NoDup l -> NoDup (map (cons x) l).
Proof.
  induction 1; simpl; constructor; auto.
  rewrite in_map_iff. intros (y & Hy & Hin). injection Hy as ->. contradiction.
Qed.

Lemma combinations_NoDup {A} (s : list A) r : NoDup s -> NoDup (combinations s r).
Proof.
  revert r; induction s as [|x xs IH]; intros r Hs.
  - destruct r; simpl; repeat constructor; simpl; tauto.
  - inversion Hs as [|? ? Hx Hxs]; subst.
    destruct r as [|r]; simpl; [repeat constructor; simpl; tauto|].
    apply NoDup_app; [apply NoDup_map_cons; auto|auto|].
    intros c Hc Hc'. apply in_map_iff in Hc as (c' & <- & _).
    apply combinations_spec in Hc' as [Hsub _].
    apply Hx. apply (subseq_in _ _ _ Hsub). now left.
Qed.

(** Over a list without duplicates, [powerset] never yields the same
    combination twice. *)
Theorem powerset_NoDup {A} (s : list A) : NoDup s -> NoDup (powerset s).
Proof.
  intros Hs. unfold powerset. generalize (seq_NoDup (List.length s + 1) 0).
  generalize (seq 0 (List.length s + 1)) as rs. induction rs as [|r rs IH]; intros Hrs.
  - constructor.
  - inversion Hrs as [|? ? Hr Hrs']; subst. simpl.
    apply NoDup_app; [now apply combinations_NoDup|auto|].
    intros c Hc Hc'. apply in_flat_map in Hc' as (r' & Hr' & Hc').
    apply combinations_spec in Hc as [_ H1]. apply combinations_spec in Hc' as [_ H2].
    subst. contradiction.
Qed.

Lemma StronglySorted_app {A} (R : A -> A -> Prop) l1 l2 :
  StronglySorted R l1 -> StronglySorted R l2 ->
  (forall a b, In a l1 -> In b l2 -> R a b) -> StronglySorted R (l1 ++ l2).
Proof.
  induction 1 as [|a l1 H1 IH HF]; simpl; intros H2 Hc; [exact H2|].
  constructor; [apply IH; auto; intros; apply Hc; simpl; auto|].
  apply Forall_app; split; [exact HF|]. apply Forall_forall. intros b Hb. apply Hc; simpl; auto.
Qed.

Lemma StronglySorted_const (n : nat) l : Forall (eq n) l -> StronglySorted le l.
Proof.
  induction 1; constructor; auto. eapply Forall_impl; [|eassumption]. intros ? <- ; lia.
Qed.

Lemma StronglySorted_seq k n : StronglySorted le (seq k n).
Proof.
  revert k; induction n; intros k; simpl; constructor; auto.
  apply Forall_forall. intros x Hx. apply in_seq in Hx. lia.
Qed.

(** [powerset] yields its combinations by nondecreasing size. *)
Theorem powerset_sorted_by_size {A} (s : list A) :
  StronglySorted le (map (@List.length A) (powerset s)).
Proof.
  unfold powerset. generalize (StronglySorted_seq 0 (List.length s + 1)).
  generalize (seq 0 (List.length s + 1)) as rs. induction rs as [|r rs IH]; intros Hrs.
  - constructor.
  - inversion Hrs as [|? ? Hrs' HF]; subst. simpl. rewrite map_app.
    apply StronglySorted_app; [|auto|].
    + apply (StronglySorted_const r). apply Forall_forall. intros n Hn.
      apply in_map_iff in Hn as (c & <- & Hc). apply combinations_spec in Hc. symmetry; tauto.
    + intros a b Ha Hb. apply in_map_iff in Ha as (c & <- & Hc). apply combinations_spec in Hc as [_ ->].
      apply in_map_iff in Hb as (c' & <- & Hc'). apply in_flat_map in Hc' as (r' & Hr' & Hc').
      apply combinations_spec in Hc' as [_ ->]. rewrite Forall_forall in HF. auto.
Qed.

(** ** The exact course of a run *)

Lemma combinate_inner_exact proc a_args fmt cs st :
  let jobs := map (fun c => combo_argv a_args fmt (fold_left or_step c 0)) cs in
  let out l := mk_os (cwd st) (dirs st) (files st) (trace st ++ map (Ev_run (cwd st)) l) in
  (combinate_inner proc a_args fmt cs st = (Ok [], out jobs)
   /\ Forall (fun v => run_ok (proc (cwd st) v) = true) jobs)
  \/ exists pre v post, jobs = pre ++ v :: post
       /\ Forall (fun v => run_ok (proc (cwd st) v) = true) pre
       /\ run_ok (proc (cwd st) v) = false
       /\ combinate_inner proc a_args fmt cs st
          = (Err (exc_of_result (proc (cwd st) v)), out (pre ++ [v])).
Proof.
  cbv zeta. revert st; induction cs as [|c cs IH]; intros st.
  - left. simpl. split; [|constructor]. destruct st; simpl. now rewrite app_nil_r.
  - cbn [combinate_inner map]. rewrite accumulate_af_fold.
    unfold index_value, subprocess_run, bind, get, log, ret, raise.
    cbv beta iota. cbn [cwd dirs files trace].
    set (v := combo_argv a_args fmt (fold_left or_step c 0)).
    destruct (proc (cwd st) v) as [|[|c'|c']] eqn:Hp.
    + right. exists [], v, (map (fun c => combo_argv a_args fmt (fold_left or_step c 0)) cs).
      rewrite Hp. repeat split; auto.
    + destruct (IH (mk_os (cwd st) (dirs st) (files st) (trace st ++ [Ev_run (cwd st) v])))
        as [[E HF]|(pre & w & post & Hj & Hpre & Hw & E)];
        cbn [cwd dirs files trace] in *; rewrite <- app_assoc in E.
      * left. rewrite E. split; [reflexivity|constructor; [now rewrite Hp|exact HF]].
      * right. exists (v :: pre), w, post. rewrite E.
        repeat split; [now rewrite Hj|constructor; [now rewrite Hp|exact Hpre]|exact Hw].
    + right. exists [], v, (map (fun c => combo_argv a_args fmt (fold_left or_step c 0)) cs).
      rewrite Hp. repeat split; auto.
    + right. exists [], v, (map (fun c => combo_argv a_args fmt (fold_left or_step c 0)) cs).
      rewrite Hp. repeat split; auto.
Qed.

(** From any state, [combinate] runs the [tes4] jobs of [plan] in order in
    the current directory and stops at the first one that fails, raising the
    exception [check=True] gives; nothing else changes. *)
Theorem combinate_exact proc a_args st :
  let out l := mk_os (cwd st) (dirs st) (files st) (trace st ++ map (Ev_run (cwd st)) l) in
  (combinate proc a_args st = (Ok tt, out (plan a_args))
   /\ Forall (fun v => run_ok (proc (cwd st) v) = true) (plan a_args))
  \/ exists pre v post, plan a_args = pre ++ v :: post
       /\ Forall (fun v => run_ok (proc (cwd st) v) = true) pre
       /\ run_ok (proc (cwd st) v) = false
       /\ combinate proc a_args st = (Err (exc_of_result (proc (cwd st) v)), out (pre ++ [v])).
Proof.
  cbv zeta. unfold combinate, formats. cbn [combinate_outer]. unfold bind at 1.
  destruct (combinate_inner_exact proc a_args "tes4"%string (powerset flag_values) st)
    as [[E HF]|(pre & v & post & Hj & Hpre & Hv & E)].
  - left. rewrite E. split; [reflexivity|exact HF].
  - right. exists pre, v, post. repeat split; auto. unfold bind at 1. now rewrite E.
Qed.

(** Started with its directory present and no file named [bin] there, the
    script makes exactly the startup steps and then the [tes4] jobs of
    [plan] in [bin], in order: all 16 when every one exits with 0, else up to
    and including the first failing one, whose exception ends the run. *)
Theorem main_exact proc (sd : abspath) a_args (cwd0 : abspath) (dirs0 files0 : list abspath) :
  In sd dirs0 -> ~ In (sd ++ ["bin"]%string) files0 ->
  let binp := sd ++ ["bin"]%string in
  let final l := mk_os binp (bin_dirs binp dirs0) files0
                       (startup_events sd dirs0 ++ map (Ev_run binp) l) in
  (main proc sd a_args (initial_state cwd0 dirs0 files0) = (Ok tt, final (plan a_args))
   /\ Forall (fun v => run_ok (proc binp v) = true) (plan a_args))
  \/ exists pre v post, plan a_args = pre ++ v :: post
       /\ Forall (fun v => run_ok (proc binp v) = true) pre
       /\ run_ok (proc binp v) = false
       /\ main proc sd a_args (initial_state cwd0 dirs0 files0)
          = (Err (exc_of_result (proc binp v)), final (pre ++ [v])).
Proof.
  intros Hsd Hf. cbv zeta. rewrite (main_startup proc sd a_args cwd0 dirs0 files0 Hsd Hf).
  unfold startup_events.
  destruct (combinate_exact proc a_args
              (mk_os (sd ++ ["bin"]%string) (bin_dirs (sd ++ ["bin"]%string) dirs0) files0
                     ([Ev_chdir sd] ++ bin_mkdir_events (sd ++ ["bin"]%string) dirs0
                      ++ [Ev_chdir (sd ++ ["bin"]%string)])))
    as [[E HF]|(pre & v & post & Hj & Hpre & Hv & E)]; cbn [cwd dirs files trace] in *;
    rewrite E; rewrite ?app_assoc.
  - left. auto.
  - right. exists pre, v, post. auto.
Qed.


(** With its directory present and no file named [bin] there, the script
    exits with status 0 exactly when the archiver exits with 0 on each of the
    16 [tes4] jobs of [plan] started in [bin]. *)
Theorem run_script_exit_zero_iff proc (sd : abspath) a_args (cwd0 : abspath)
    (dirs0 files0 : list abspath) :
  In sd dirs0 -> ~ In (sd ++ ["bin"]%string) files0 ->
  (fst (run_script proc sd a_args cwd0 dirs0 files0) = 0
   <-> Forall (fun v => run_ok (proc (sd ++ ["bin"]%string) v) = true) (plan a_args)).
Proof.
  intros Hsd Hf. unfold run_script.
  destruct (main_exact proc sd a_args cwd0 dirs0 files0 Hsd Hf)
    as [[E HF]|(pre & v & post & Hj & Hpre & Hv & E)]; rewrite E; simpl.
  - tauto.
  - split; [discriminate|]. intros H. rewrite Forall_forall in H.
    rewrite (H v) in Hv; [discriminate|]. rewrite Hj. apply in_elt.
Qed.


Lemma plan_prefix_combinate proc a_args : plan_prefix_runs a_args (combinate proc a_args).
Proof.
  intros st.
  destruct (combinate_exact proc a_args st)
    as [[E _]|(pre & v & post & Hj & _ & _ & E)]; rewrite E; simpl.
  - exists [], (plan a_args), [], (cwd st). rewrite app_nil_r. auto.
  - exists [], (pre ++ [v]), post, (cwd st). rewrite <- app_assoc. auto.
Qed.

Lemma plan_prefix_bind_NR {A B} a_args (m : M A) (k : A -> M B) :
  NR m -> (forall x, plan_prefix_runs a_args (k x)) -> plan_prefix_runs a_args (bind m k).
Proof.
  intros Hm Hk st. destruct (Hm st) as (new1 & H1 & Hn1). unfold bind.
  destruct (m st) as [[x|e] st1]; simpl in H1.
  - destruct (Hk x st1) as (new2 & pre & post & c & Hj & Hn2 & H2).
    exists (new1 ++ new2), pre, post, c. rewrite H2, H1, <- !app_assoc.
    split; [exact Hj|split; [apply Forall_app; auto|reflexivity]].
  - exists new1, [], (plan a_args), []. simpl. rewrite H1, app_nil_r. auto.
Qed.

Lemma plan_prefix_main proc sd a_args : plan_prefix_runs a_args (main proc sd a_args).
Proof.
  unfold main. cbv zeta.
  apply plan_prefix_bind_NR; [apply NR_os_chdir|intros _].
  apply plan_prefix_bind_NR; [apply NR_os_makedirs|intros _].
  apply plan_prefix_bind_NR; [apply NR_os_chdir|intros _].
  apply plan_prefix_combinate.
Qed.

Lemma run_outputs_app l1 l2 : run_outputs (l1 ++ l2) = run_outputs l1 ++ run_outputs l2.
Proof. unfold run_outputs. apply flat_map_app. Qed.

Lemma run_outputs_not_run l : Forall not_run l -> run_outputs l = [].
Proof. induction 1 as [|[] l Hx _ IH]; simpl in *; auto; contradiction. Qed.

Lemma run_outputs_runs c l : run_outputs (map (Ev_run c) l) = map (fun v => nth 3 v ""%string) l.
Proof. induction l; simpl; congruence. Qed.

Lemma plan_outputs a_args :
  map (fun v => nth 3 v ""%string) (plan a_args)
  = map (fun combo => archive_name "tes4" (fold_left or_step combo 0)) (powerset flag_values).
Proof. unfold plan. rewrite map_map. reflexivity. Qed.

Lemma plan_outputs_NoDup a_args : NoDup (map (fun v => nth 3 v ""%string) (plan a_args)).
Proof.
  rewrite plan_outputs. vm_compute.
  repeat (constructor; [simpl; intros H; repeat destruct H as [H|H]; try discriminate; contradiction|]).
  constructor.
Qed.

(** In every run, whatever the archiver and the file system do, no two
    invocations are given the same output archive name. *)
Theorem run_outputs_NoDup proc (sd : abspath) a_args (cwd0 : abspath)
    (dirs0 files0 : list abspath) :
  NoDup (run_outputs (trace (snd (run_script proc sd a_args cwd0 dirs0 files0)))).
Proof.
  unfold run_script.
  destruct (plan_prefix_main proc sd a_args (initial_state cwd0 dirs0 files0))
    as (new & pre & post & c & Hj & Hn & Ht).
  destruct (main proc sd a_args (initial_state cwd0 dirs0 files0)) as [r st]. simpl in *.
  rewrite Ht, run_outputs_app, run_outputs_not_run, run_outputs_runs by exact Hn. simpl.
  pose proof (plan_outputs_NoDup a_args) as H. rewrite Hj, map_app in H.
  exact (NoDup_app_remove_r _ _ H).
Qed.

(** ** Startup failures of [main] *)


Lemma makedirs_bin_file st :
  isdir st (cwd st) = true -> In (cwd st ++ ["bin"]%string) (files st) ->
  ~ In (cwd st ++ ["bin"]%string) (dirs st) ->
  os_makedirs (Rel ["bin"%string]) true st = (Err FileExistsError, st).
Proof.
  intros Hd Hf Hnd. unfold os_makedirs, bind, get. simpl resolve.
  rewrite length_app. simpl List.length. rewrite Nat.add_comm. simpl makedirs_abs.
  unfold bind, get. rewrite removelast_last.
  replace (match cwd st with [] => false | _ :: _ => negb (exists_path st (cwd st)) end)
    with false by (unfold exists_path; rewrite Hd; destruct (cwd st); reflexivity).
  unfold ret, mkdir_exist_ok, os_mkdir, bind, get, exists_path, isfile, raise.
  rewrite isdir_snoc.
  destruct (in_dec path_eq_dec (cwd st ++ ["bin"]%string) (files st)) as [_|Hn]; [|contradiction].
  destruct (in_dec path_eq_dec (cwd st ++ ["bin"]%string) (dirs st)) as [Hin|_]; [contradiction|].
  rewrite orb_true_r. simpl. rewrite isdir_snoc.
  destruct (in_dec path_eq_dec (cwd st ++ ["bin"]%string) (dirs st)) as [Hin|_]; [contradiction|].
  reflexivity.
Qed.

(** When [bin] exists as a file in the script's directory, [os.makedirs]
    raises [FileExistsError] despite [exist_ok=True]: [main] stops after the
    first [chdir], with no directory made and no archiver started. *)
Theorem main_bin_is_file proc (sd : abspath) a_args (cwd0 : abspath)
    (dirs0 files0 : list abspath) :
  In sd dirs0 -> In (sd ++ ["bin"]%string) files0 -> ~ In (sd ++ ["bin"]%string) dirs0 ->
  main proc sd a_args (initial_state cwd0 dirs0 files0)
  = (Err FileExistsError, mk_os sd dirs0 files0 [Ev_chdir sd]).
Proof.
  intros Hsd Hf Hnd. unfold main, bind at 1. cbv beta zeta.
  rewrite chdir_ok by (apply isdir_in; exact Hsd). unfold bind at 1.
  rewrite makedirs_bin_file; simpl; auto. apply isdir_in. exact Hsd.
Qed.

(** ** Witnesses *)

Lemma powerset_NoDup_witness : NoDup flag_values /\ NoDup (powerset flag_values).
Proof.
  assert (H : NoDup flag_values).
  { vm_compute.
    repeat (constructor; [simpl; intros H; repeat destruct H as [H|H]; try discriminate; contradiction|]).
    constructor. }
  split; [exact H|]. exact (powerset_NoDup flag_values H).
Defined.

Lemma main_exact_witness :
  In demo_sd demo_dirs /\ ~ In (demo_sd ++ ["bin"]%string) []
  /\ (let binp := demo_sd ++ ["bin"]%string in
      let final l := mk_os binp (bin_dirs binp demo_dirs) []
                           (startup_events demo_sd demo_dirs ++ map (Ev_run binp) l) in
      (main fail_on_af4 demo_sd demo_args (initial_state [] demo_dirs []) = (Ok tt, final (plan demo_args))
       /\ Forall (fun v => run_ok (fail_on_af4 binp v) = true) (plan demo_args))
      \/ exists pre v post, plan demo_args = pre ++ v :: post
           /\ Forall (fun v => run_ok (fail_on_af4 binp v) = true) pre
           /\ run_ok (fail_on_af4 binp v) = false
           /\ main fail_on_af4 demo_sd demo_args (initial_state [] demo_dirs [])
              = (Err (exc_of_result (fail_on_af4 binp v)), final (pre ++ [v]))).
Proof.
  assert (H1 : In demo_sd demo_dirs) by (right; left; reflexivity).
  assert (H2 : ~ In (demo_sd ++ ["bin"%string]) []) by (intros []).
  split; [exact H1|]. split; [exact H2|].
  exact (main_exact fail_on_af4 demo_sd demo_args [] demo_dirs [] H1 H2).
Defined.

Lemma run_script_exit_zero_iff_witness :
  In demo_sd demo_dirs /\ ~ In (demo_sd ++ ["bin"]%string) []
  /\ (fst (run_script always_ok demo_sd demo_args [] demo_dirs []) = 0
      <-> Forall (fun v => run_ok (always_ok (demo_sd ++ ["bin"]%string) v) = true) (plan demo_args)).
Proof.
  assert (H1 : In demo_sd demo_dirs) by (right; left; reflexivity).
  assert (H2 : ~ In (demo_sd ++ ["bin"%string]) []) by (intros []).
  split; [exact H1|]. split; [exact H2|].
  exact (run_script_exit_zero_iff always_ok demo_sd demo_args [] demo_dirs [] H1 H2).
Defined.



Lemma main_bin_is_file_witness :
  In demo_sd demo_dirs /\ In (demo_sd ++ ["bin"]%string) [demo_bin]
  /\ ~ In (demo_sd ++ ["bin"]%string) demo_dirs
  /\ main always_ok demo_sd demo_args (initial_state [] demo_dirs [demo_bin])
     = (Err FileExistsError, mk_os demo_sd demo_dirs [demo_bin] [Ev_chdir demo_sd]).
Proof.
  assert (H1 : In demo_sd demo_dirs) by (right; left; reflexivity).
  assert (H2 : In (demo_sd ++ ["bin"]%string) [demo_bin]) by (left; reflexivity).
  assert (H3 : ~ In (demo_sd ++ ["bin"]%string) demo_dirs)
    by (simpl; intros [H|[H|[]]]; discriminate).
  split; [exact H1|]. split; [exact H2|]. split; [exact H3|].
  exact (main_bin_is_file always_ok demo_sd demo_args [] demo_dirs [demo_bin] H1 H2 H3).
Defined.

(** ** What a run does to the file system *)



